(** * pyjulia: the pseudo Python command line interface

    A shallow embedding of [julia/pseudo_python_cli.py]: the argument
    splitter [split_args], the dispatcher [python] and the entry point
    [main], together with the properties of the design document that can
    be settled on them. *)

From Stdlib Require Import String Ascii List Bool Arith ZArith Lia.
Import ListNotations.
Local Open Scope string_scope.
Local Open Scope list_scope.

(** ** Python values the program manipulates *)

(** The value carried by [SystemExit.code]: [None], an integer or some
    other object (rendered as text). *)
Inductive exit_code :=
| ExitNone
| ExitInt (n : Z)
| ExitObj (repr : string).

(** Exceptions.  [SystemExit] and [KeyboardInterrupt] derive from
    [BaseException] only; everything else derives from [Exception]. *)
Inductive exn :=
| PyException (what : string)
| IndexError
| UnboundLocalError (name : string)
| SystemExit (code : exit_code)
| KeyboardInterrupt.

(** [isinstance(e, Exception)] *)
Definition is_Exception (e : exn) : bool :=
  match e with
  | SystemExit _ | KeyboardInterrupt => false
  | PyException _ | IndexError | UnboundLocalError _ => true
  end.

(** A computation either returns or raises. *)
Inductive outcome (A : Type) :=
| Ret (a : A)
| Raise (e : exn).
Arguments Ret {A} a.
Arguments Raise {A} e.

(** ** String primitives *)

(** [a.startswith(p)] *)
Definition startswith (a p : string) : bool := String.prefix p a.

(** [a[i]] for [0 <= i]: [None] stands for the [IndexError]. *)
Definition getitem (a : string) (i : nat) : option ascii := String.get i a.

(** [a in (x, y, ...)] for a tuple of strings *)
Definition in_tuple (a : string) (t : list string) : bool :=
  existsb (String.eqb a) t.

(** [c in (x, y, ...)] for a tuple of one-character strings *)
Definition char_in_tuple (c : ascii) (t : list string) : bool :=
  existsb (String.eqb (String c EmptyString)) t.

(** ** The argument splitter *)

(** The [for a in it] loop of [split_args]: [it] is what the iterator
    still holds, [py_args] the list built so far.  The result pairs
    [py_args] with [list(it)] as they are when the loop is left. *)
Fixpoint split_loop (it : list string) (py_args : list string)
  : outcome (list string * list string) :=
  match it with
  | [] => Ret (py_args, [])
  | a :: it =>
      if in_tuple a ["-c"; "-m"] then
        let py_args := py_args ++ [a] in
        match it with
        | [] => Ret (py_args, [])                  (* StopIteration: break *)
        | a :: it => Ret (py_args ++ [a], it)
        end
      else if a =? "-" then
        Ret (py_args ++ [a], it)
      else if startswith a "-" then
        let py_args := py_args ++ [a] in
        match getitem a 1 with
        | None => Raise IndexError
        | Some a1 =>
            if char_in_tuple a1 ["c"; "m"] then Ret (py_args, it)
            else split_loop it py_args
        end
      else
        Ret (py_args ++ [a], it)
  end.

Definition split_args (args : list string)
  : outcome (list string * list string) :=
  split_loop args [].

(** ** The dispatcher's world *)

(** The local [scope] holds [None] or a dict; [Dict] is the backend's
    type of dicts. *)
Inductive pyscope (Dict : Type) :=
| PyNone
| PyDict (d : Dict).
Arguments PyNone {Dict}.
Arguments PyDict {Dict} d.

(** What the parser's namespace holds before [script_args] is added. *)
Record namespace := {
  ns_interactive : bool;
  ns_command : option string;
  ns_module : option string;
  ns_script : option string
}.

(** The collaborators the module imports: [exec], [compile], [runpy],
    [sys.stdin], [code.interact] and the [argparse] parser.  [exec]
    mutates the globals object it is given, so it yields that object as it
    is when [exec] returns or raises.  The executed program sees
    [sys.argv], which is passed along. *)
Class Backend := {
  Dict : Type;
  Code : Type;
  empty_dict : Dict;
  exec_source :
    string -> pyscope Dict -> list string -> pyscope Dict * option exn;
  exec_code :
    Code -> pyscope Dict -> list string -> pyscope Dict * option exn;
  run_module : string -> list string -> outcome Dict;
  run_path : string -> list string -> outcome Dict;
  stdin_read : outcome string;
  compile : string -> string -> string -> outcome Code;
  interact : option string -> pyscope Dict -> option exn;
  parser_parse_args : option string -> list string -> outcome namespace
}.

(** Observable steps of one run, oldest first. *)
Inductive event {B : Backend} :=
| EExec (command : string) (argv : list string)
| EExecCode (c : Code) (argv : list string)
| ERunModule (module : string) (argv : list string)
| ERunPath (script : string) (argv : list string)
| EStdinRead
| ECompile (source filename mode : string)
| EPrintExc (e : exn)
| EInteract (banner : option string) (local : pyscope Dict).

(** The process state the module touches: [sys.argv] and what has
    happened so far. *)
Record world {B : Backend} := {
  sys_argv : list string;
  trace : list event
}.

(** The local variables of [python] that the [try] statement assigns;
    [None] in [scope] is an unbound local. *)
Record frame {B : Backend} := {
  interactive : bool;
  scope : option (pyscope Dict);
  banner : option string
}.

(** ** A state and exception monad

    The state survives a raise, as the effects of a Python statement
    do. *)
Module M.
Section Monad.
Context {S : Type}.

Definition t (A : Type) : Type := S -> outcome A * S.

Definition ret {A} (a : A) : t A := fun s => (Ret a, s).

Definition bind {A B} (m : t A) (k : A -> t B) : t B :=
  fun s =>
    match m s with
    | (Ret a, s') => k a s'
    | (Raise e, s') => (Raise e, s')
    end.

Definition raise {A} (e : exn) : t A := fun s => (Raise e, s).

Definition gets {A} (f : S -> A) : t A := fun s => (Ret (f s), s).

Definition modify (f : S -> S) : t unit := fun s => (Ret tt, f s).

Definition lift {A} (o : outcome A) : t A := fun s => (o, s).

(** [try: body / except Exception: handler] *)
Definition try_except_Exception {A} (body : t A) (handler : exn -> t A)
  : t A :=
  fun s =>
    match body s with
    | (Ret a, s') => (Ret a, s')
    | (Raise e, s') =>
        if is_Exception e then handler e s' else (Raise e, s')
    end.
End Monad.
Arguments t S A : clear implicits.
End M.

Declare Scope py_scope.
Delimit Scope py_scope with py.
Notation "x <- m ;; k" := (M.bind m (fun x => k))
  (at level 61, m at next level, right associativity) : py_scope.
Notation "' pat <- m ;; k" :=
  (M.bind m (fun x => match x with pat => k end))
  (at level 61, pat pattern, m at next level, right associativity) : py_scope.
Notation "m ;; k" := (M.bind m (fun _ => k))
  (at level 61, right associativity) : py_scope.
Local Open Scope py_scope.

(** ** The dispatcher *)

Section Dispatcher.
Context {B : Backend}.

(** The state [python] runs in: the process state and its own locals. *)
Definition pystate : Type := world * frame.

(** Truth value of an optional string argument: [None] and [""] are
    false; a true one is handed back. *)
Definition truthy (x : option string) : option string :=
  match x with
  | Some s => if s =? "" then None else Some s
  | None => None
  end.

(** [x == s] for an optional string [x] *)
Definition eq_str (x : option string) (s : string) : bool :=
  match x with
  | Some x => x =? s
  | None => false
  end.

(** [sys.argv[0] = x] *)
Definition sys_argv_setitem0 (x : string) : M.t world unit :=
  fun w =>
    match sys_argv w with
    | [] => (Raise IndexError, w)
    | _ :: rest => (Ret tt, {| sys_argv := x :: rest; trace := trace w |})
    end.

(** [sys.argv[1:] = l] *)
Definition sys_argv_setslice1 (l : list string) : M.t world unit :=
  M.modify (fun w =>
    {| sys_argv := firstn 1 (sys_argv w) ++ l; trace := trace w |}).

Definition emit_world (ev : event) (w : world) : world :=
  {| sys_argv := sys_argv w; trace := trace w ++ [ev] |}.

(** [traceback.print_exc()] while [e] is being handled *)
Definition print_exc (e : exn) : M.t world unit :=
  M.modify (emit_world (EPrintExc e)).

(** The first three statements of [python]. *)
Definition set_sys_argv (command script : option string)
  (script_args : list string) : M.t world unit :=
  match truthy command with
  | Some _ => sys_argv_setitem0 "-c"
  | None =>
      match truthy script with
      | Some script => sys_argv_setitem0 script
      | None => M.ret tt
      end
  end ;;
  sys_argv_setslice1 script_args.

(** *** Statements over the locals *)

Definition in_world {A} (m : M.t world A) : M.t pystate A :=
  fun '(w, f) => let '(r, w') := m w in (r, (w', f)).

Definition emit (ev : event) : M.t pystate unit :=
  in_world (M.modify (emit_world ev)).

Definition argv_now : M.t pystate (list string) :=
  M.gets (fun s : pystate => sys_argv (fst s)).

Definition set_scope (v : pyscope Dict) : M.t pystate unit :=
  M.modify (fun '(w, f) =>
    (w, {| interactive := interactive f; scope := Some v;
           banner := banner f |})).

Definition set_interactive (v : bool) : M.t pystate unit :=
  M.modify (fun '(w, f) =>
    (w, {| interactive := v; scope := scope f; banner := banner f |})).

Definition set_banner (v : option string) : M.t pystate unit :=
  M.modify (fun '(w, f) =>
    (w, {| interactive := interactive f; scope := scope f; banner := v |})).

(** Reading the local [scope]: an unbound local raises. *)
Definition load_scope : M.t pystate (pyscope Dict) :=
  fun s =>
    match scope (snd s) with
    | Some v => (Ret v, s)
    | None => (Raise (UnboundLocalError "scope"), s)
    end.

Definition raise_if (r : option exn) : M.t pystate unit :=
  match r with
  | Some e => M.raise e
  | None => M.ret tt
  end.

(** [exec(command, scope)]: the local keeps naming the object [exec]
    has written to, also when [exec] raises. *)
Definition call_exec (command : string) : M.t pystate unit :=
  g <- load_scope ;;
  argv <- argv_now ;;
  emit (EExec command argv) ;;
  let '(g', r) := exec_source command g argv in
  set_scope g' ;;
  raise_if r.

(** [exec(compile(source, "<stdin>", "exec"), scope)]: the arguments
    are evaluated left to right, then [exec] is called. *)
Definition call_exec_compiled (source : string) : M.t pystate unit :=
  emit (ECompile source "<stdin>" "exec") ;;
  c <- M.lift (compile source "<stdin>" "exec") ;;
  g <- load_scope ;;
  argv <- argv_now ;;
  emit (EExecCode c argv) ;;
  let '(g', r) := exec_code c g argv in
  set_scope g' ;;
  raise_if r.

Definition call_run_module (module : string) : M.t pystate Dict :=
  argv <- argv_now ;;
  emit (ERunModule module argv) ;;
  M.lift (run_module module argv).

Definition call_run_path (script : string) : M.t pystate Dict :=
  argv <- argv_now ;;
  emit (ERunPath script argv) ;;
  M.lift (run_path script argv).

Definition call_stdin_read : M.t pystate string :=
  emit EStdinRead ;;
  M.lift stdin_read.

(** [code.interact(banner=banner, local=scope)] *)
Definition call_interact : M.t pystate unit :=
  b <- M.gets (fun s : pystate => banner (snd s)) ;;
  l <- load_scope ;;
  emit (EInteract b l) ;;
  raise_if (interact b l).

(** The body of the [try] statement. *)
Definition python_try (module command script : option string)
  : M.t pystate unit :=
  match truthy command with
  | Some command =>
      set_scope (PyDict empty_dict) ;;
      call_exec command
  | None =>
      match truthy module with
      | Some module =>
          d <- call_run_module module ;;
          set_scope (PyDict d)
      | None =>
          if eq_str script "-" then
            source <- call_stdin_read ;;
            call_exec_compiled source
          else
            match truthy script with
            | Some script =>
                d <- call_run_path script ;;
                set_scope (PyDict d)
            | None =>
                set_interactive true ;;
                set_scope PyNone ;;
                set_banner None  (* show banner *)
            end
      end
  end.

(** The [except Exception] clause. *)
Definition python_except (e : exn) : M.t pystate unit :=
  i <- M.gets (fun s : pystate => interactive (snd s)) ;;
  if negb i then M.raise e
  else in_world (print_exc e).

(** From [banner = ""] to the end of [python]. *)
Definition python_body (module command script : option string)
  : M.t pystate unit :=
  M.try_except_Exception
    (python_try module command script) python_except ;;
  i <- M.gets (fun s : pystate => interactive (snd s)) ;;
  if i then call_interact else M.ret tt.

Definition python (module command script : option string)
  (script_args : list string) (interactive : bool) : M.t world unit :=
  set_sys_argv command script script_args ;;
  (fun w =>
     let f := {| interactive := interactive; scope := None;
                 banner := Some "" |} in
     let '(r, (w', _)) := python_body module command script (w, f) in
     (r, w')).

(** *** Parsing and the entry point *)

(** [make_parser()]: only [prog] depends on the state; the rest of the
    parser is the collaborator's. *)
Definition make_parser : M.t world (list string -> outcome namespace) :=
  argv <- M.gets sys_argv ;;
  match argv with
  | [] => M.raise IndexError
  | argv0 :: _ =>
      M.ret (parser_parse_args
               (if argv0 =? "" then Some "python" else None))
  end.

Definition parse_args (args : list string)
  : M.t world (namespace * list string) :=
  parser <- make_parser ;;
  '(py_args, script_args) <- M.lift (split_args args) ;;
  ns <- M.lift (parser py_args) ;;
  M.ret (ns, script_args).

(** [main(args)]; its value is what [return] gives, [ExitNone] when the
    function falls off its end. *)
Definition main (args : option (list string)) : M.t world exit_code :=
  args <- match args with
          | None => argv <- M.gets sys_argv ;; M.ret (skipn 1 argv)
          | Some args => M.ret args
          end ;;
  (fun w =>
    match (nsa <- parse_args args ;;
           python (ns_module (fst nsa)) (ns_command (fst nsa))
                  (ns_script (fst nsa)) (snd nsa)
                  (ns_interactive (fst nsa))) w with
    | (Ret _, w') => (Ret ExitNone, w')
    | (Raise (SystemExit code), w') => (Ret code, w')
    | (Raise e, w') =>
        if is_Exception e
        then (print_exc e ;; M.ret (ExitInt 1%Z)) w'
        else (Raise e, w')
    end).

End Dispatcher.

(** ** Vocabulary of the properties *)

(** The five execution modes, in the priority order of the [try] body. *)
Inductive mode :=
| InlineCommand
| RunModule
| StdinScript
| FileScript
| InteractiveOnly.

Section Vocabulary.
Context {B : Backend}.

(** The branch the [if]/[elif] chain of the [try] body takes. *)
Definition branch (module command script : option string) : mode :=
  match truthy command, truthy module with
  | Some _, _ => InlineCommand
  | None, Some _ => RunModule
  | None, None =>
      if eq_str script "-" then StdinScript
      else match truthy script with
           | Some _ => FileScript
           | None => InteractiveOnly
           end
  end.

Definition is_set (x : option string) : nat :=
  match x with Some _ => 1 | None => 0 end.

(** The invocation record's invariant: at most one of the three is
    set. *)
Definition exclusive (module command script : option string) : Prop :=
  is_set module + is_set command + is_set script <= 1.

(** A process state at start-up: nothing has happened yet. *)
Definition fresh (argv : list string) : world :=
  {| sys_argv := argv; trace := [] |}.

(** What the executed program finds in [sys.argv]. *)
Definition program_argv (command script : option string)
  (script_args argv : list string) : list string :=
  sys_argv (snd (set_sys_argv command script script_args (fresh argv))).

(** The execution step of the selected branch fails with [e] when the
    program sees [argv]. *)
Definition backend_raises (module command script : option string)
  (argv : list string) (e : exn) : Prop :=
  match branch module command script with
  | InlineCommand =>
      exists c, truthy command = Some c /\
        snd (exec_source c (PyDict empty_dict) argv) = Some e
  | RunModule =>
      exists m, truthy module = Some m /\ run_module m argv = Raise e
  | StdinScript =>
      stdin_read = Raise e \/
      exists source, stdin_read = Ret source /\
        compile source "<stdin>" "exec" = Raise e
  | FileScript =>
      exists p, truthy script = Some p /\ run_path p argv = Raise e
  | InteractiveOnly => False
  end.

Definition is_interact (ev : event) : bool :=
  match ev with EInteract _ _ => true | _ => false end.

Definition is_exec (ev : event) : bool :=
  match ev with EExec _ _ | EExecCode _ _ => true | _ => false end.

(** Did an interactive session start? *)
Definition session_started (evs : list event) : bool :=
  existsb is_interact evs.

(** Was [exec] ever called? *)
Definition exec_called (evs : list event) : bool :=
  existsb is_exec evs.
End Vocabulary.

(** ** A small backend to run the model on

    Dicts are the lists of names they bind.  Division by zero fails, a
    module named [missing] cannot be imported, [raise SystemExit(3)] does
    what it says; everything else succeeds. *)
Module Demo.

Definition bind_name (x : string) (g : pyscope (list string))
  : pyscope (list string) :=
  match g with
  | PyDict d => PyDict (d ++ [x])
  | PyNone => PyNone
  end.

Definition exec_text (src : string) (g : pyscope (list string))
  (argv : list string) : pyscope (list string) * option exn :=
  if src =? "1/0" then (g, Some (PyException "ZeroDivisionError"))
  else if src =? "x = 1; 1/0" then
    (bind_name "x" g, Some (PyException "ZeroDivisionError"))
  else if src =? "raise SystemExit(3)" then
    (g, Some (SystemExit (ExitInt 3)))
  else if src =? "x = 1" then (bind_name "x" g, None)
  else (g, None).

Definition run_named (name : string) (argv : list string)
  : outcome (list string) :=
  if startswith name "missing" then Raise (PyException "ImportError")
  else if startswith name "quit" then Raise (SystemExit (ExitInt 3))
  else Ret ["__name__"].

Definition set_command (c : string) (ns : namespace) : namespace :=
  {| ns_interactive := ns_interactive ns; ns_command := Some c;
     ns_module := ns_module ns; ns_script := ns_script ns |}.

Definition set_module (m : string) (ns : namespace) : namespace :=
  {| ns_interactive := ns_interactive ns; ns_command := ns_command ns;
     ns_module := Some m; ns_script := ns_script ns |}.

Definition set_script (p : string) (ns : namespace) : namespace :=
  {| ns_interactive := ns_interactive ns; ns_command := ns_command ns;
     ns_module := ns_module ns; ns_script := Some p |}.

Definition set_i (ns : namespace) : namespace :=
  {| ns_interactive := true; ns_command := ns_command ns;
     ns_module := ns_module ns; ns_script := ns_script ns |}.

(** A parser for [-i], [-c cmd], [-m mod] and one script; anything else
    is a usage error (exit code 2). *)
Fixpoint parse_from (ns : namespace) (l : list string)
  : outcome namespace :=
  match l with
  | [] => Ret ns
  | a :: l =>
      if a =? "-i" then parse_from (set_i ns) l
      else if a =? "-c" then
        match l with
        | c :: l => parse_from (set_command c ns) l
        | [] => Raise (SystemExit (ExitInt 2))
        end
      else if a =? "-m" then
        match l with
        | m :: l => parse_from (set_module m ns) l
        | [] => Raise (SystemExit (ExitInt 2))
        end
      else if (a =? "-") || negb (startswith a "-") then
        parse_from (set_script a ns) l
      else Raise (SystemExit (ExitInt 2))
  end.

Definition backend : Backend := {|
  Dict := list string;
  Code := string;
  empty_dict := [];
  exec_source := exec_text;
  exec_code := exec_text;
  run_module := run_named;
  run_path := run_named;
  stdin_read := Ret "x = 1";
  compile := fun source _ _ => Ret source;
  interact := fun _ _ => None;
  parser_parse_args := fun _ =>
    parse_from {| ns_interactive := false; ns_command := None;
                  ns_module := None; ns_script := None |}
|}.

End Demo.

(** ** Vocabulary of the splitter's shape *)

(** The token's second character is [c] or [m]: the test on [a[1]]. *)
Definition selects_mode (a : string) : bool :=
  match getitem a 1 with
  | Some a1 => char_in_tuple a1 ["c"; "m"]
  | None => false
  end.

(** The loop goes on after [a]: the one branch without a [break]. *)
Definition continues (a : string) : bool :=
  negb (in_tuple a ["-c"; "-m"]) && negb (a =? "-") &&
  startswith a "-" && negb (selects_mode a).

(** [a] is appended and the loop is left at once: a lone dash, a bundled
    mode selector or a script. *)
Definition stops_alone (a : string) : bool :=
  negb (in_tuple a ["-c"; "-m"]) &&
  ((a =? "-") || negb (startswith a "-") || selects_mode a).

Section RunVocabulary.
Context {B : Backend}.

(** The execution step of the command, module or file branch succeeds
    when the program sees [argv], and leaves [g] in the local [scope]. *)
Definition backend_returns (module command script : option string)
  (argv : list string) (g : pyscope Dict) : Prop :=
  match branch module command script with
  | InlineCommand =>
      exists c, truthy command = Some c /\
        exec_source c (PyDict empty_dict) argv = (g, None)
  | RunModule =>
      exists m d, truthy module = Some m /\
        run_module m argv = Ret d /\ g = PyDict d
  | FileScript =>
      exists p d, truthy script = Some p /\
        run_path p argv = Ret d /\ g = PyDict d
  | StdinScript | InteractiveOnly => False
  end.

(** The local variables [python] starts its [try] statement with. *)
Definition initial_frame (i : bool) : frame :=
  {| interactive := i; scope := None; banner := Some "" |}.
End RunVocabulary.

(** ** A second small backend

    As [Demo], but the user leaves every interactive session with
    [exit(7)] and interrupts the module [spin]. *)
Module Leaving.

Definition run_or_interrupt (name : string) (argv : list string)
  : outcome (list string) :=
  if name =? "spin" then Raise KeyboardInterrupt
  else Demo.run_named name argv.

Definition backend : Backend := {|
  Dict := list string;
  Code := string;
  empty_dict := [];
  exec_source := Demo.exec_text;
  exec_code := Demo.exec_text;
  run_module := run_or_interrupt;
  run_path := Demo.run_named;
  stdin_read := Ret "x = 1";
  compile := fun source _ _ => Ret source;
  interact := fun _ _ => Some (SystemExit (ExitInt 7));
  parser_parse_args := fun _ =>
    Demo.parse_from {| ns_interactive := false; ns_command := None;
                       ns_module := None; ns_script := None |}
|}.

End Leaving.

(** * Properties of the argument splitter *)

Section SplitArgs.

#[local] Arguments in_tuple : simpl never.
#[local] Arguments char_in_tuple : simpl never.
#[local] Arguments startswith : simpl never.
#[local] Arguments getitem : simpl never.

(** A token that gets as far as the [startswith] test has a second
    character. *)
Lemma dash_token_has_second_char (a : string) :
  (a =? "-") = false ->
  startswith a "-" = true ->
  exists a1, getitem a 1 = Some a1.
Proof.
  unfold startswith, getitem.
  intros Edash Estart.
  apply String.eqb_neq in Edash.
  apply String.prefix_correct in Estart.
  destruct a as [|c [|c' s]]; simpl in *.
  - discriminate Estart.
  - now elim Edash.
  - eauto.
Qed.

(** The accumulator only ever grows at its end, so the loop started on
    [py_args] is the loop started on the empty list, shifted. *)
Lemma split_loop_acc (it py_args : list string) :
  split_loop it py_args =
  match split_loop it [] with
  | Ret (F, R) => Ret (py_args ++ F, R)
  | Raise e => Raise e
  end.
Proof.
  revert py_args.
  induction it as [|a it IH]; intros py_args; simpl.
  - now rewrite app_nil_r.
  - destruct (in_tuple a ["-c"; "-m"]).
    + destruct it; simpl; now rewrite <- ?app_assoc.
    + destruct (a =? "-"); [reflexivity|].
      destruct (startswith a "-"); [|reflexivity].
      destruct (getitem a 1) as [a1|]; [|reflexivity].
      destruct (char_in_tuple a1 ["c"; "m"]); [reflexivity|].
      rewrite (IH (py_args ++ [a])), (IH [a]).
      destruct (split_loop it []) as [[F R]|e]; [|reflexivity].
      now rewrite <- app_assoc.
Qed.

Lemma split_loop_total (it : list string) :
  exists F R, split_loop it [] = Ret (F, R).
Proof.
  induction it as [|a it (F & R & IH)]; simpl; [eauto|].
  destruct (in_tuple a ["-c"; "-m"]).
  { destruct it; eauto. }
  destruct (a =? "-") eqn:Edash; [eauto|].
  destruct (startswith a "-") eqn:Estart; [|eauto].
  destruct (dash_token_has_second_char a Edash Estart) as [a1 ->].
  destruct (char_in_tuple a1 ["c"; "m"]); [eauto|].
  rewrite split_loop_acc, IH. eauto.
Qed.

Lemma split_loop_concat (it F R : list string) :
  split_loop it [] = Ret (F, R) -> F ++ R = it.
Proof.
  revert F R.
  induction it as [|a it IH]; intros F R; simpl.
  - now intros [= <- <-].
  - destruct (in_tuple a ["-c"; "-m"]).
    { destruct it; now intros [= <- <-]. }
    destruct (a =? "-"); [now intros [= <- <-]|].
    destruct (startswith a "-"); [|now intros [= <- <-]].
    destruct (getitem a 1) as [a1|]; [|discriminate].
    destruct (char_in_tuple a1 ["c"; "m"]); [now intros [= <- <-]|].
    rewrite split_loop_acc.
    destruct (split_loop it []) as [[F' R']|e] eqn:E; [|discriminate].
    intros [= <- <-]. simpl. f_equal. now apply IH.
Qed.

Lemma split_loop_idempotent (it F R : list string) :
  split_loop it [] = Ret (F, R) -> split_loop F [] = Ret (F, []).
Proof.
  revert F R.
  induction it as [|a it IH]; intros F R; simpl.
  - now intros [= <- <-].
  - destruct (in_tuple a ["-c"; "-m"]) eqn:Emode.
    { destruct it; intros [= <- <-]; simpl; now rewrite Emode. }
    destruct (a =? "-") eqn:Edash.
    { intros [= <- <-]; simpl. now rewrite Emode, Edash. }
    destruct (startswith a "-") eqn:Estart.
    2:{ intros [= <- <-]; simpl. now rewrite Emode, Edash, Estart. }
    destruct (getitem a 1) as [a1|] eqn:Eget; [|discriminate].
    destruct (char_in_tuple a1 ["c"; "m"]) eqn:Echar.
    { intros [= <- <-]; simpl.
      now rewrite Emode, Edash, Estart, Eget, Echar. }
    rewrite split_loop_acc.
    destruct (split_loop it []) as [[F' R']|e] eqn:E; [|discriminate].
    intros [= <- <-]. simpl.
    rewrite Emode, Edash, Estart, Eget, Echar.
    now rewrite split_loop_acc, (IH _ _ eq_refl).
Qed.

End SplitArgs.

(** The docstring's second example; the other two are part of
    [split_args_examples]. *)
Example split_args_doctest :
  split_args ["-c"; "1/0"] = Ret (["-c"; "1/0"], []).
Proof. reflexivity. Qed.

(** C1.  Whatever [split_args] returns for [V], the front-end part
    followed by the forwarded part is [V] again: the first is a prefix of
    [V], the second the rest of it, with nothing dropped, repeated or
    moved. *)
Theorem split_args_concat (V F R : list string) :
  split_args V = Ret (F, R) ->
  F ++ R = V /\ F = firstn (length F) V /\ R = skipn (length F) V.
Proof.
  intros H. apply split_loop_concat in H. subst V.
  repeat split.
  - now rewrite firstn_app, firstn_all, Nat.sub_diag, app_nil_r.
  - now rewrite skipn_app, skipn_all, Nat.sub_diag.
Qed.

Lemma split_args_concat_witness :
  ["-i"; "-c"; "pass"] ++ ["a"; "-c"] = ["-i"; "-c"; "pass"; "a"; "-c"] /\
  ["-i"; "-c"; "pass"] = firstn 3 ["-i"; "-c"; "pass"; "a"; "-c"] /\
  ["a"; "-c"] = skipn 3 ["-i"; "-c"; "pass"; "a"; "-c"].
Proof.
  exact (split_args_concat ["-i"; "-c"; "pass"; "a"; "-c"]
           ["-i"; "-c"; "pass"] ["a"; "-c"] eq_refl).
Defined.

(** C7.  The examples of the design document: [split_args] on
    [-i script.py arg], on [-mjson.tool -h], on a lone [-c], on a lone [-]
    and on the empty vector. *)
Theorem split_args_examples :
  split_args ["-i"; "script.py"; "arg"] = Ret (["-i"; "script.py"], ["arg"]) /\
  split_args ["-mjson.tool"; "-h"] = Ret (["-mjson.tool"], ["-h"]) /\
  split_args ["-c"] = Ret (["-c"], []) /\
  split_args ["-"] = Ret (["-"], []) /\
  split_args [] = Ret ([], []).
Proof. repeat split; reflexivity. Qed.

(** C8.  Splitting the front-end part again changes nothing: it comes
    back whole, and nothing is forwarded. *)
Theorem split_args_idempotent (V F R : list string) :
  split_args V = Ret (F, R) -> split_args F = Ret (F, []).
Proof. apply split_loop_idempotent. Qed.

Lemma split_args_idempotent_witness :
  split_args ["-i"; "-m"; "json.tool"] = Ret (["-i"; "-m"; "json.tool"], []).
Proof.
  exact (split_args_idempotent ["-i"; "-m"; "json.tool"; "-h"; "x"]
           ["-i"; "-m"; "json.tool"] ["-h"; "x"] eq_refl).
Defined.

(** C9.  [split_args] returns a pair on every list of strings.  The index
    [a[1]] cannot be out of range: a token that is not [-c], [-m] or [-]
    and that starts with a dash has at least two characters. *)
Theorem split_args_total :
  (forall V, exists F R, split_args V = Ret (F, R)) /\
  (forall a,
     in_tuple a ["-c"; "-m"] = false ->
     (a =? "-") = false ->
     startswith a "-" = true ->
     2 <= String.length a /\ exists a1, getitem a 1 = Some a1).
Proof.
  split.
  - intros V. apply split_loop_total.
  - intros a _ Edash Estart.
    destruct (dash_token_has_second_char a Edash Estart) as [a1 Ha1].
    split; [|eauto].
    destruct a as [|c [|c' s]]; simpl in *; try discriminate; lia.
Qed.

Lemma split_args_total_witness :
  (exists F R, split_args ["-i"; "-"; "x"] = Ret (F, R)) /\
  2 <= String.length "-i" /\ exists a1, getitem "-i" 1 = Some a1.
Proof.
  split.
  - exact (proj1 split_args_total ["-i"; "-"; "x"]).
  - exact (proj2 split_args_total "-i" eq_refl eq_refl eq_refl).
Defined.

(** * Properties of the dispatcher *)

Section DispatcherFacts.
Context {B : Backend}.

Lemma set_sys_argv_cons command script script_args a0 rest t :
  set_sys_argv command script script_args
    {| sys_argv := a0 :: rest; trace := t |} =
  (Ret tt,
   {| sys_argv :=
        match truthy command, truthy script with
        | Some _, _ => "-c"
        | None, Some script => script
        | None, None => a0
        end :: script_args;
      trace := t |}).
Proof.
  unfold set_sys_argv, M.bind, sys_argv_setitem0, sys_argv_setslice1,
    M.modify, M.ret.
  destruct (truthy command); [reflexivity|].
  destruct (truthy script); reflexivity.
Qed.

Lemma parse_args_world args w :
  snd (parse_args args w) = w.
Proof.
  unfold parse_args, make_parser, M.bind, M.gets, M.lift, M.raise, M.ret.
  destruct (sys_argv w); [reflexivity|].
  destruct (split_args args) as [[py_args script_args]|e]; [|reflexivity].
  destruct (parser_parse_args _ py_args); reflexivity.
Qed.

Lemma parse_args_argv args w ns script_args :
  fst (parse_args args w) = Ret (ns, script_args) ->
  sys_argv w <> [].
Proof.
  unfold parse_args, make_parser, M.bind, M.gets, M.raise.
  destruct (sys_argv w); [discriminate | discriminate 2].
Qed.

(** [main] once the arguments have been parsed. *)
Lemma main_parsed args w ns script_args :
  fst (parse_args args w) = Ret (ns, script_args) ->
  main (Some args) w =
  match python (ns_module ns) (ns_command ns) (ns_script ns) script_args
          (ns_interactive ns) w with
  | (Ret _, w') => (Ret ExitNone, w')
  | (Raise (SystemExit code), w') => (Ret code, w')
  | (Raise e, w') =>
      if is_Exception e
      then (Ret (ExitInt 1), emit_world (EPrintExc e) w')
      else (Raise e, w')
  end.
Proof.
  intros Hparse.
  pose proof (parse_args_world args w) as Hw.
  unfold main. unfold M.bind at 1. unfold M.ret at 1. unfold M.bind at 1.
  destruct (parse_args args w) as [r w0]. simpl in Hparse, Hw. subst r w0.
  simpl.
  destruct (python _ _ _ _ _ w) as [[u|e] w']; [reflexivity|].
  destruct e; reflexivity.
Qed.

Lemma program_argv_cons command script script_args a0 rest :
  program_argv command script script_args (a0 :: rest) =
  match truthy command, truthy script with
  | Some _, _ => "-c"
  | None, Some script => script
  | None, None => a0
  end :: script_args.
Proof.
  unfold program_argv, fresh. now rewrite set_sys_argv_cons.
Qed.

(** [python] once [sys.argv] is in place. *)
Lemma python_cons module command script script_args i a0 rest :
  python module command script script_args i (fresh (a0 :: rest)) =
  let '(r, (w', _)) :=
    python_body module command script
      ({| sys_argv := program_argv command script script_args (a0 :: rest);
          trace := [] |},
       {| interactive := i; scope := None; banner := Some "" |}) in
  (r, w').
Proof.
  unfold python, M.bind, fresh.
  now rewrite set_sys_argv_cons, program_argv_cons.
Qed.


Ltac py_unfold :=
  unfold python_body, python_try, python_except, call_exec,
    call_exec_compiled, call_run_module, call_run_path, call_stdin_read,
    call_interact, load_scope, raise_if, set_scope, set_interactive,
    set_banner, argv_now, emit, in_world, print_exc, emit_world,
    M.try_except_Exception, M.bind, M.ret, M.raise, M.gets, M.modify,
    M.lift.

Ltac fatal_case Hfatal e :=
  destruct Hfatal as [Hfatal | ->];
  [ rewrite Hfatal | destruct (is_Exception e) ];
  simpl; eexists; (split; [|reflexivity]); reflexivity.

Lemma python_backend_raises module command script script_args i a0 rest e :
  backend_raises module command script
    (program_argv command script script_args (a0 :: rest)) e ->
  is_Exception e = false \/ i = false ->
  exists evs,
    session_started evs = false /\
    python module command script script_args i (fresh (a0 :: rest)) =
    (Raise e,
     {| sys_argv := program_argv command script script_args (a0 :: rest);
        trace := evs |}).
Proof.
  intros Hfail Hfatal. rewrite python_cons.
  set (argv := program_argv _ _ _ _) in *. clearbody argv.
  unfold backend_raises, branch in Hfail.
  py_unfold.
  destruct (truthy command) as [c|].
  { destruct Hfail as (c' & [= <-] & Hfail). simpl.
    destruct (exec_source c (PyDict empty_dict) argv) as [g' r].
    simpl in Hfail. subst r. simpl. fatal_case Hfatal e. }
  destruct (truthy module) as [m|].
  { destruct Hfail as (m' & [= <-] & Hfail). simpl.
    rewrite Hfail. fatal_case Hfatal e. }
  destruct (eq_str script "-").
  { destruct Hfail as [Hfail | (source & Hread & Hfail)]; simpl.
    - rewrite Hfail. fatal_case Hfatal e.
    - rewrite Hread. simpl. rewrite Hfail. fatal_case Hfatal e. }
  destruct (truthy script) as [p|]; [|contradiction].
  destruct Hfail as (p' & [= <-] & Hfail). simpl.
  rewrite Hfail. fatal_case Hfatal e.
Qed.

Lemma python_fallback_unbound module command script script_args a0 rest e :
  branch module command script <> InlineCommand ->
  backend_raises module command script
    (program_argv command script script_args (a0 :: rest)) e ->
  is_Exception e = true ->
  exists evs,
    session_started evs = false /\
    In (EPrintExc e) evs /\
    python module command script script_args true (fresh (a0 :: rest)) =
    (Raise (UnboundLocalError "scope"),
     {| sys_argv := program_argv command script script_args (a0 :: rest);
        trace := evs |}).
Proof.
  intros Hbranch Hfail Hexc. rewrite python_cons.
  set (argv := program_argv _ _ _ _) in *. clearbody argv.
  unfold backend_raises in Hfail. unfold branch in Hbranch, Hfail.
  py_unfold.
  destruct (truthy command) as [c|]; [now elim Hbranch|].
  destruct (truthy module) as [m|].
  { destruct Hfail as (m' & [= <-] & Hfail). simpl.
    rewrite Hfail, Hexc. simpl. eexists. split; [|split; [|reflexivity]].
    - reflexivity.
    - simpl; auto. }
  destruct (eq_str script "-").
  { destruct Hfail as [Hfail | (source & Hread & Hfail)]; simpl.
    - rewrite Hfail, Hexc. simpl. eexists. split; [|split; [|reflexivity]].
      + reflexivity.
      + simpl; auto.
    - rewrite Hread. simpl. rewrite Hfail, Hexc. simpl.
      eexists. split; [|split; [|reflexivity]].
      + reflexivity.
      + simpl; auto. }
  destruct (truthy script) as [p|]; [|contradiction].
  destruct Hfail as (p' & [= <-] & Hfail). simpl.
  rewrite Hfail, Hexc. simpl. eexists. split; [|split; [|reflexivity]].
  - reflexivity.
  - simpl; auto.
Qed.

(** The command branch binds [scope] before [exec], so there the
    fallback works: the session gets what [exec] had written. *)
Lemma python_command_fallback
  module command script script_args a0 rest c g e :
  truthy command = Some c ->
  exec_source c (PyDict empty_dict) ("-c" :: script_args) = (g, Some e) ->
  is_Exception e = true ->
  python module command script script_args true (fresh (a0 :: rest)) =
  (match interact (Some "") g with Some e' => Raise e' | None => Ret tt end,
   {| sys_argv := "-c" :: script_args;
      trace := [EExec c ("-c" :: script_args); EPrintExc e;
                EInteract (Some "") g] |}).
Proof.
  intros Hcommand Hexec Hexc. rewrite python_cons, program_argv_cons.
  py_unfold. rewrite Hcommand. simpl. rewrite Hexec. simpl.
  rewrite Hexc. simpl. destruct (interact (Some "") g); reflexivity.
Qed.

Lemma python_stdin module command script script_args i a0 rest source c :
  branch module command script = StdinScript ->
  stdin_read = Ret source ->
  compile source "<stdin>" "exec" = Ret c ->
  python module command script script_args i (fresh (a0 :: rest)) =
  (Raise (UnboundLocalError "scope"),
   {| sys_argv := "-" :: script_args;
      trace := [EStdinRead; ECompile source "<stdin>" "exec"] ++
               if i then [EPrintExc (UnboundLocalError "scope")] else [] |}).
Proof.
  intros Hbranch Hread Hcompile. rewrite python_cons, program_argv_cons.
  unfold branch in Hbranch. py_unfold.
  destruct (truthy command) as [c'|]; [discriminate|].
  destruct (truthy module) as [m|]; [discriminate|].
  destruct (eq_str script "-") eqn:Edash.
  2:{ destruct (truthy script); discriminate. }
  destruct script as [p|]; [|discriminate]. simpl in Edash.
  apply String.eqb_eq in Edash. subst p. simpl.
  rewrite Hread. simpl. rewrite Hcompile. simpl.
  destruct i; reflexivity.
Qed.

Lemma python_interactive_only module command script script_args i argv :
  branch module command script = InteractiveOnly ->
  python module command script script_args i (fresh argv) =
  (match interact None PyNone with Some e => Raise e | None => Ret tt end,
   {| sys_argv := firstn 1 argv ++ script_args;
      trace := [EInteract None PyNone] |}).
Proof.
  intros Hbranch. unfold branch in Hbranch.
  unfold python, set_sys_argv, sys_argv_setslice1. py_unfold.
  destruct (truthy command) as [c'|]; [discriminate|].
  destruct (truthy module) as [m|]; [discriminate|].
  destruct (eq_str script "-"); [discriminate|].
  destruct (truthy script); [discriminate|]. simpl.
  destruct (interact None PyNone); reflexivity.
Qed.

Lemma python_body_banner module command script w i b l :
  branch module command script <> InteractiveOnly ->
  trace w = [] ->
  In (EInteract b l)
     (trace (fst (snd (python_body module command script
        (w, {| interactive := i; scope := None; banner := Some "" |}))))) ->
  b = Some "".
Proof.
  intros Hbranch Htrace. unfold branch in Hbranch. py_unfold.
  destruct w as [argv t]. simpl in Htrace. subst t.
  destruct (truthy command) as [c|].
  { simpl. destruct (exec_source c (PyDict empty_dict) argv) as [g' [e|]];
      simpl.
    - destruct (is_Exception e), i; simpl;
        try destruct (interact (Some "") g'); simpl;
        intuition congruence.
    - destruct i; simpl; try destruct (interact (Some "") g'); simpl;
        intuition congruence. }
  destruct (truthy module) as [m|].
  { simpl. destruct (run_module m argv) as [d|e]; simpl.
    - destruct i; simpl; try destruct (interact (Some "") (PyDict d));
        simpl; intuition congruence.
    - destruct (is_Exception e), i; simpl; intuition congruence. }
  destruct (eq_str script "-").
  { simpl. destruct stdin_read as [source|e]; simpl.
    - destruct (compile source "<stdin>" "exec") as [c|e]; simpl.
      + destruct i; simpl; intuition congruence.
      + destruct (is_Exception e), i; simpl; intuition congruence.
    - destruct (is_Exception e), i; simpl; intuition congruence. }
  destruct (truthy script) as [p|]; [|now elim Hbranch].
  simpl. destruct (run_path p argv) as [d|e]; simpl.
  - destruct i; simpl; try destruct (interact (Some "") (PyDict d));
      simpl; intuition congruence.
  - destruct (is_Exception e), i; simpl; intuition congruence.
Qed.

Lemma python_banner module command script script_args i argv b l :
  branch module command script <> InteractiveOnly ->
  In (EInteract b l)
     (trace (snd (python module command script script_args i
                    (fresh argv)))) ->
  b = Some "".
Proof.
  intros Hbranch.
  unfold python. unfold M.bind at 1.
  destruct (set_sys_argv command script script_args (fresh argv))
    as [[[]|e] w] eqn:Hset.
  - assert (trace w = []) as Htrace.
    { destruct argv as [|a0 rest].
      - revert Hset. unfold set_sys_argv, M.bind, sys_argv_setitem0,
          sys_argv_setslice1, M.modify, M.ret, fresh.
        destruct (truthy command); simpl; [discriminate|].
        destruct (truthy script); simpl; [discriminate|].
        now intros [= <-].
      - unfold fresh in Hset. rewrite set_sys_argv_cons in Hset.
        now injection Hset as <-. }
    pose proof (python_body_banner module command script w i b l
                  Hbranch Htrace) as Hbody.
    destruct (python_body _ _ _ _) as [r [w' f']]. exact Hbody.
  - destruct argv as [|a0 rest].
    + revert Hset. unfold set_sys_argv, M.bind, sys_argv_setitem0,
        sys_argv_setslice1, M.modify, M.ret, fresh.
      destruct (truthy command); simpl.
      * intros [= <- <-]. simpl. contradiction.
      * destruct (truthy script); simpl; [|discriminate].
        intros [= <- <-]. simpl. contradiction.
    + unfold fresh in Hset. rewrite set_sys_argv_cons in Hset.
      discriminate.
Qed.

Lemma program_argv_branch module command script script_args a0 rest :
  exclusive module command script ->
  program_argv command script script_args (a0 :: rest) =
  match branch module command script with
  | InlineCommand => "-c"
  | StdinScript => "-"
  | FileScript => match script with Some p => p | None => a0 end
  | RunModule | InteractiveOnly => a0
  end :: script_args.
Proof.
  intros Hexcl. rewrite program_argv_cons. unfold branch.
  destruct (truthy command) as [c|]; [reflexivity|].
  destruct (truthy module) as [m|] eqn:Em.
  { destruct module; [|discriminate].
    destruct script.
    - unfold exclusive in Hexcl. destruct command; simpl in Hexcl; lia.
    - reflexivity. }
  destruct (eq_str script "-") eqn:Edash.
  { destruct script as [p|]; [|discriminate]. simpl in Edash.
    apply String.eqb_eq in Edash. now subst p. }
  destruct script as [p|]; simpl; [|reflexivity].
  destruct (p =? ""); reflexivity.
Qed.

(** C2.  Where the code departs from the fallback it attempts: when the
    module, the standard-input script or the script file fails with an
    ordinary exception and [interactive] is true, the diagnostic is
    printed, but [scope] was never bound, so reading it for
    [code.interact] raises [UnboundLocalError] and no session starts. *)
Theorem fallback_without_scope_raises
  module command script script_args a0 rest e :
  branch module command script <> InlineCommand ->
  backend_raises module command script
    (program_argv command script script_args (a0 :: rest)) e ->
  is_Exception e = true ->
  exists evs,
    session_started evs = false /\
    In (EPrintExc e) evs /\
    python module command script script_args true (fresh (a0 :: rest)) =
    (Raise (UnboundLocalError "scope"),
     {| sys_argv := program_argv command script script_args (a0 :: rest);
        trace := evs |}).
Proof. apply python_fallback_unbound. Qed.

(** C3, as the code has it.  With nothing to run, [python] starts the
    interactive session whatever [interactive] says, with [banner=None]
    (the backend's default banner is shown) and [local=None] (a fresh
    namespace); every session started from one of the other branches gets
    the empty banner, which prints nothing. *)
Theorem banner_of_interactive_session
  module command script script_args i argv :
  (branch module command script = InteractiveOnly ->
   python module command script script_args i (fresh argv) =
   (match interact None PyNone with Some e => Raise e | None => Ret tt end,
    {| sys_argv := firstn 1 argv ++ script_args;
       trace := [EInteract None PyNone] |})) /\
  (branch module command script <> InteractiveOnly ->
   forall b l,
     In (EInteract b l)
        (trace (snd (python module command script script_args i
                       (fresh argv)))) ->
     b = Some "").
Proof.
  split.
  - apply python_interactive_only.
  - intros Hbranch b l. now apply python_banner.
Qed.

(** C4.  Where the code departs from the stdin branch it attempts: with
    [script == "-"] standard input is read and compiled under the name
    [<stdin>], but [scope] is unbound when [exec]'s arguments are
    evaluated, so [UnboundLocalError] is raised and nothing is
    executed. *)
Theorem stdin_script_is_not_executed
  module command script script_args i a0 rest source c :
  branch module command script = StdinScript ->
  stdin_read = Ret source ->
  compile source "<stdin>" "exec" = Ret c ->
  exists evs,
    exec_called evs = false /\
    session_started evs = false /\
    python module command script script_args i (fresh (a0 :: rest)) =
    (Raise (UnboundLocalError "scope"),
     {| sys_argv := "-" :: script_args;
        trace := [EStdinRead; ECompile source "<stdin>" "exec"] ++ evs |}).
Proof.
  intros Hbranch Hread Hcompile.
  rewrite (python_stdin _ _ _ _ _ _ _ _ _ Hbranch Hread Hcompile).
  eexists. split; [|split; [|reflexivity]]; now destruct i.
Qed.

(** C5, as the code has it.  Before anything is executed, position 0
    of [sys.argv] becomes ["-c"] for a command, the script argument for a
    script, which is ["-"] when the program comes from standard input, and
    is left alone for a module and for the bare interactive session; the
    forwarded arguments follow from position 1 on. *)
Theorem argv_before_execution
  module command script script_args a0 rest :
  exclusive module command script ->
  set_sys_argv command script script_args (fresh (a0 :: rest)) =
  (Ret tt,
   fresh (match branch module command script with
          | InlineCommand => "-c"
          | StdinScript => "-"
          | FileScript => match script with Some p => p | None => a0 end
          | RunModule | InteractiveOnly => a0
          end :: script_args)).
Proof.
  intros Hexcl.
  rewrite <- (program_argv_branch _ _ _ _ _ rest Hexcl).
  rewrite program_argv_cons. unfold fresh. apply set_sys_argv_cons.
Qed.

(** C6.  When the execution step fails with an ordinary exception and
    [interactive] is false, [python] raises that very exception without
    starting a session, and [main] prints the traceback and returns 1. *)
Theorem failure_without_interactive_is_fatal
  args ns script_args argv e :
  fst (parse_args args (fresh argv)) = Ret (ns, script_args) ->
  ns_interactive ns = false ->
  backend_raises (ns_module ns) (ns_command ns) (ns_script ns)
    (program_argv (ns_command ns) (ns_script ns) script_args argv) e ->
  is_Exception e = true ->
  exists evs,
    session_started evs = false /\
    python (ns_module ns) (ns_command ns) (ns_script ns) script_args
      (ns_interactive ns) (fresh argv) =
    (Raise e,
     {| sys_argv :=
          program_argv (ns_command ns) (ns_script ns) script_args argv;
        trace := evs |}) /\
    main (Some args) (fresh argv) =
    (Ret (ExitInt 1),
     {| sys_argv :=
          program_argv (ns_command ns) (ns_script ns) script_args argv;
        trace := evs ++ [EPrintExc e] |}).
Proof.
  intros Hparse Hi Hfail Hexc.
  pose proof (parse_args_argv _ _ _ _ Hparse) as Hargv.
  destruct argv as [|a0 rest]; [now elim Hargv|].
  destruct (python_backend_raises _ _ _ _ (ns_interactive ns) _ _ _ Hfail
              (or_intror Hi)) as (evs & Hsession & Hpython).
  exists evs. split; [exact Hsession|]. split; [exact Hpython|].
  rewrite (main_parsed _ _ _ _ Hparse), Hpython.
  destruct e; try discriminate Hexc; reflexivity.
Qed.

(** C10.  [SystemExit] and [KeyboardInterrupt] are not caught by
    [except Exception]: raised by the execution step they leave [python]
    whatever [interactive] is, no session starts, and [main] returns the
    code of a [SystemExit] (a [KeyboardInterrupt] leaves [main] too). *)
Theorem exit_and_interrupt_pass_through
  args ns script_args argv e :
  fst (parse_args args (fresh argv)) = Ret (ns, script_args) ->
  backend_raises (ns_module ns) (ns_command ns) (ns_script ns)
    (program_argv (ns_command ns) (ns_script ns) script_args argv) e ->
  is_Exception e = false ->
  exists evs,
    session_started evs = false /\
    python (ns_module ns) (ns_command ns) (ns_script ns) script_args
      (ns_interactive ns) (fresh argv) =
    (Raise e,
     {| sys_argv :=
          program_argv (ns_command ns) (ns_script ns) script_args argv;
        trace := evs |}) /\
    main (Some args) (fresh argv) =
    (match e with SystemExit code => Ret code | _ => Raise e end,
     {| sys_argv :=
          program_argv (ns_command ns) (ns_script ns) script_args argv;
        trace := evs |}).
Proof.
  intros Hparse Hfail Hexc.
  pose proof (parse_args_argv _ _ _ _ Hparse) as Hargv.
  destruct argv as [|a0 rest]; [now elim Hargv|].
  destruct (python_backend_raises _ _ _ _ (ns_interactive ns) _ _ _ Hfail
              (or_introl Hexc)) as (evs & Hsession & Hpython).
  exists evs. split; [exact Hsession|]. split; [exact Hpython|].
  rewrite (main_parsed _ _ _ _ Hparse), Hpython.
  destruct e; try discriminate Hexc; reflexivity.
Qed.

End DispatcherFacts.

(** ** The theorems at work on the small backend *)

Section DemoRuns.

#[local] Existing Instance Demo.backend.

Lemma fallback_without_scope_raises_witness :
exists evs,
  session_started evs = false /\
  In (EPrintExc (PyException "ImportError")) evs /\
  python (Some "missing") None None ["-h"] true
    (fresh ["prog"]) =
  (Raise (UnboundLocalError "scope"),
   {| sys_argv := ["prog"; "-h"]; trace := evs |}).
Proof.
apply (fallback_without_scope_raises
         (Some "missing") None None ["-h"] "prog" []
         (PyException "ImportError")).
- vm_compute. discriminate.
- exists "missing". split; reflexivity.
- reflexivity.
Defined.

(** C3 as stated fails: the bare interactive session is started with
  [banner=None], not with the empty banner. *)
Lemma banner_of_bare_session_counterexample :
~ (forall module command script script_args i argv b l,
     branch module command script = InteractiveOnly ->
     In (EInteract b l)
        (trace (snd (python module command script script_args i
                       (fresh argv)))) ->
     b = Some "").
Proof.
intros H.
specialize (H None None None [] false ["python"] None PyNone eq_refl).
discriminate H. vm_compute. left. reflexivity.
Qed.

Lemma banner_of_interactive_session_witness :
python None None None ["a"] false (fresh ["python"]) =
(Ret tt,
 {| sys_argv := ["python"; "a"]; trace := [EInteract None PyNone] |}) /\
(forall b l,
   In (EInteract b l)
      (trace (snd (python None (Some "x = 1; 1/0") None
                     [] true (fresh ["python"])))) ->
   b = Some "").
Proof.
split.
- exact (proj1 (banner_of_interactive_session
                  None None None ["a"] false ["python"]) eq_refl).
- apply (proj2 (banner_of_interactive_session
                  None (Some "x = 1; 1/0") None [] true ["python"])).
  vm_compute. discriminate.
Defined.

Lemma stdin_script_is_not_executed_witness :
exists evs,
  exec_called evs = false /\
  session_started evs = false /\
  python None None (Some "-") ["a"] false
    (fresh ["prog"]) =
  (Raise (UnboundLocalError "scope"),
   {| sys_argv := ["-"; "a"];
      trace := [EStdinRead; ECompile "x = 1" "<stdin>" "exec"] ++ evs |}).
Proof.
exact (stdin_script_is_not_executed
         None None (Some "-") ["a"] false "prog" [] "x = 1" "x = 1"
         eq_refl eq_refl eq_refl).
Defined.

(** C5 as stated fails: running a program from standard input does
  overwrite position 0, with ["-"]. *)
Lemma stdin_argv0_counterexample :
~ (forall module command script script_args argv w,
     branch module command script = StdinScript ->
     set_sys_argv command script script_args (fresh argv) = (Ret tt, w) ->
     nth_error (sys_argv w) 0 = nth_error argv 0).
Proof.
intros H.
specialize (H None None (Some "-") ["a"] ["prog"] _ eq_refl eq_refl).
discriminate H.
Qed.

Lemma argv_before_execution_witness :
set_sys_argv None (Some "-") ["a"]
  (fresh ["prog"; "-"; "a"]) =
(Ret tt, fresh ["-"; "a"]).
Proof.
apply (argv_before_execution
         None None (Some "-") ["a"] "prog" ["-"; "a"]).
unfold exclusive. simpl. lia.
Defined.

Lemma failure_without_interactive_is_fatal_witness :
exists evs,
  session_started evs = false /\
  python None (Some "1/0") None ["z"] false
    (fresh ["prog"]) =
  (Raise (PyException "ZeroDivisionError"),
   {| sys_argv := ["-c"; "z"]; trace := evs |}) /\
  main (Some ["-c"; "1/0"; "z"]) (fresh ["prog"]) =
  (Ret (ExitInt 1),
   {| sys_argv := ["-c"; "z"];
      trace := evs ++ [EPrintExc (PyException "ZeroDivisionError")] |}).
Proof.
apply (failure_without_interactive_is_fatal
         ["-c"; "1/0"; "z"]
         {| ns_interactive := false; ns_command := Some "1/0";
            ns_module := None; ns_script := None |}
         ["z"] ["prog"] (PyException "ZeroDivisionError")).
- reflexivity.
- reflexivity.
- exists "1/0". split; reflexivity.
- reflexivity.
Defined.

Lemma exit_and_interrupt_pass_through_witness :
exists evs,
  session_started evs = false /\
  python None (Some "raise SystemExit(3)") None ["z"] true
    (fresh ["prog"]) =
  (Raise (SystemExit (ExitInt 3)),
   {| sys_argv := ["-c"; "z"]; trace := evs |}) /\
  main (Some ["-i"; "-c"; "raise SystemExit(3)"; "z"]) (fresh ["prog"]) =
  (Ret (ExitInt 3), {| sys_argv := ["-c"; "z"]; trace := evs |}).
Proof.
apply (exit_and_interrupt_pass_through
         ["-i"; "-c"; "raise SystemExit(3)"; "z"]
         {| ns_interactive := true; ns_command := Some "raise SystemExit(3)";
            ns_module := None; ns_script := None |}
         ["z"] ["prog"] (SystemExit (ExitInt 3))).
- reflexivity.
- exists "raise SystemExit(3)". split; reflexivity.
- reflexivity.
Defined.

End DemoRuns.

(** * More on the argument splitter *)

Section SplitArgsShape.

#[local] Arguments in_tuple : simpl never.
#[local] Arguments char_in_tuple : simpl never.
#[local] Arguments startswith : simpl never.
#[local] Arguments getitem : simpl never.

Lemma split_loop_continues (a : string) (it py_args : list string) :
  continues a = true ->
  split_loop (a :: it) py_args = split_loop it (py_args ++ [a]).
Proof.
  unfold continues, selects_mode. simpl.
  destruct (in_tuple a ["-c"; "-m"]); simpl; [discriminate|].
  destruct (a =? "-") eqn:Edash; simpl; [discriminate|].
  destruct (startswith a "-") eqn:Estart; simpl; [|discriminate].
  destruct (dash_token_has_second_char a Edash Estart) as [a1 ->].
  destruct (char_in_tuple a1 ["c"; "m"]); simpl; [discriminate|reflexivity].
Qed.

Lemma split_loop_stops_alone (a : string) (it py_args : list string) :
  stops_alone a = true ->
  split_loop (a :: it) py_args = Ret (py_args ++ [a], it).
Proof.
  unfold stops_alone, selects_mode. simpl.
  destruct (in_tuple a ["-c"; "-m"]); simpl; [discriminate|].
  destruct (a =? "-") eqn:Edash; simpl; [reflexivity|].
  destruct (startswith a "-") eqn:Estart; simpl; [|reflexivity].
  destruct (dash_token_has_second_char a Edash Estart) as [a1 ->].
  destruct (char_in_tuple a1 ["c"; "m"]); simpl; [reflexivity|discriminate].
Qed.

Lemma split_loop_flags (pre t py_args : list string) :
  forallb continues pre = true ->
  split_loop (pre ++ t) py_args = split_loop t (py_args ++ pre).
Proof.
  revert py_args.
  induction pre as [|a pre IH]; intros py_args Hpre; simpl in Hpre.
  - simpl. now rewrite app_nil_r.
  - apply andb_true_iff in Hpre as [Ha Hpre].
    rewrite <- app_comm_cons.
    rewrite (split_loop_continues a _ _ Ha), (IH _ Hpre).
    now rewrite <- app_assoc.
Qed.

Lemma token_cases (a : string) :
  in_tuple a ["-c"; "-m"] = false ->
  continues a = negb (stops_alone a).
Proof.
  unfold continues, stops_alone. intros ->. simpl.
  destruct (a =? "-"), (startswith a "-"), (selects_mode a); reflexivity.
Qed.

Lemma split_loop_after_flags (pre t : list string) :
  forallb continues pre = true ->
  split_loop (pre ++ t) [] =
  match split_loop t [] with
  | Ret (F, R) => Ret (pre ++ F, R)
  | Raise e => Raise e
  end.
Proof.
  intros Hpre. now rewrite (split_loop_flags _ _ _ Hpre), split_loop_acc.
Qed.

Lemma split_loop_operand (pre : list string) (m x : string)
  (rest : list string) :
  forallb continues pre = true ->
  in_tuple m ["-c"; "-m"] = true ->
  split_loop (pre ++ m :: x :: rest) [] = Ret (pre ++ [m; x], rest).
Proof.
  intros Hpre Hm. rewrite (split_loop_after_flags _ _ Hpre).
  simpl. now rewrite Hm.
Qed.

Lemma split_loop_shape (V F R : list string) :
  split_loop V [] = Ret (F, R) ->
  exists pre tail,
    F = pre ++ tail /\
    forallb continues pre = true /\
    ((tail = [] /\ R = []) \/
     (exists t, tail = [t] /\ stops_alone t = true) \/
     (exists m x, tail = [m; x] /\ in_tuple m ["-c"; "-m"] = true) \/
     (exists m, tail = [m] /\ in_tuple m ["-c"; "-m"] = true /\ R = [])).
Proof.
  revert F R.
  induction V as [|a V IH]; intros F R.
  { simpl. intros [= <- <-]. exists [], []. auto. }
  destruct (in_tuple a ["-c"; "-m"]) eqn:Emode.
  { simpl. rewrite Emode. destruct V as [|x V]; intros [= <- <-].
    - exists [], [a]. repeat split. right. right. right. eauto.
    - exists [], [a; x]. repeat split. right. right. left. eauto. }
  pose proof (token_cases a Emode) as Hcases.
  destruct (continues a) eqn:Econt.
  - rewrite (split_loop_continues a V [] Econt), split_loop_acc.
    destruct (split_loop V []) as [[F' R']|e] eqn:E; [|discriminate].
    intros [= <- <-].
    destruct (IH _ _ eq_refl) as (pre & tail & -> & Hpre & Htail).
    exists (a :: pre), tail. simpl. rewrite Econt, Hpre. auto.
  - assert (stops_alone a = true) as Hstop
        by (now destruct (stops_alone a)).
    rewrite (split_loop_stops_alone a V [] Hstop).
    intros [= <- <-]. exists [], [a]. repeat split. right. left. eauto.
Qed.

(** Flags that select no mode are passed over: the split of what follows
    them is the split of the whole, with the flags put in front. *)
Theorem split_args_after_flags (pre t : list string) :
  forallb continues pre = true ->
  split_args (pre ++ t) =
  match split_args t with
  | Ret (F, R) => Ret (pre ++ F, R)
  | Raise e => Raise e
  end.
Proof. apply split_loop_after_flags. Qed.

Lemma split_args_after_flags_witness :
  split_args (["-i"; "-u"] ++ ["script.py"; "-i"]) =
  match split_args ["script.py"; "-i"] with
  | Ret (F, R) => Ret (["-i"; "-u"] ++ F, R)
  | Raise e => Raise e
  end.
Proof.
  exact (split_args_after_flags ["-i"; "-u"] ["script.py"; "-i"] eq_refl).
Defined.

(** A command line of such flags only is front-end as a whole: nothing
    is forwarded. *)
Theorem split_args_flags_only (V : list string) :
  forallb continues V = true -> split_args V = Ret (V, []).
Proof.
  intros HV. unfold split_args.
  rewrite <- (app_nil_r V) at 1.
  rewrite (split_loop_after_flags _ _ HV). simpl. now rewrite app_nil_r.
Qed.

Lemma split_args_flags_only_witness :
  split_args ["-i"; "-u"; "-x"] = Ret (["-i"; "-u"; "-x"], []).
Proof. exact (split_args_flags_only ["-i"; "-u"; "-x"] eq_refl). Defined.

(** After such flags, the first lone dash, bundled mode selector or
    script is the last front-end token; all that follows is forwarded
    untouched. *)
Theorem split_args_stops_at (pre : list string) (t : string)
  (rest : list string) :
  forallb continues pre = true ->
  in_tuple t ["-c"; "-m"] = false ->
  t = "-" \/ startswith t "-" = false \/ selects_mode t = true ->
  split_args (pre ++ t :: rest) = Ret (pre ++ [t], rest).
Proof.
  intros Hpre Hmode Hstop. unfold split_args.
  rewrite (split_loop_after_flags _ _ Hpre).
  rewrite split_loop_stops_alone; [reflexivity|].
  unfold stops_alone. rewrite Hmode. simpl.
  destruct Hstop as [-> | [-> | ->]].
  - reflexivity.
  - now rewrite orb_true_r.
  - now rewrite orb_true_r.
Qed.

Lemma split_args_stops_at_witness :
  split_args (["-i"] ++ "-mjson.tool" :: ["-c"; "x"]) =
  Ret (["-i"] ++ ["-mjson.tool"], ["-c"; "x"]).
Proof.
  exact (split_args_stops_at ["-i"] "-mjson.tool" ["-c"; "x"]
           eq_refl eq_refl (or_intror (or_intror eq_refl))).
Defined.

(** The token after [-c] or [-m] is taken as its operand whatever it
    looks like, and ends the front-end part. *)
Theorem split_args_operand (pre : list string) (m x : string)
  (rest : list string) :
  forallb continues pre = true ->
  in_tuple m ["-c"; "-m"] = true ->
  split_args (pre ++ m :: x :: rest) = Ret (pre ++ [m; x], rest).
Proof.
  apply split_loop_operand.
Qed.

Lemma split_args_operand_witness :
  split_args (["-i"] ++ "-c" :: "-i" :: ["-m"; "x"]) =
  Ret (["-i"] ++ ["-c"; "-i"], ["-m"; "x"]).
Proof.
  exact (split_args_operand ["-i"] "-c" "-i" ["-m"; "x"] eq_refl eq_refl).
Defined.

(** The front-end part always has this shape: flags that select no
    mode, then nothing (the input ran out), or one stopping token, or
    [-c]/[-m] with its operand, or a last [-c]/[-m] without operand.
    Something is forwarded only in the second and third case. *)
Theorem split_args_shape (V F R : list string) :
  split_args V = Ret (F, R) ->
  exists pre tail,
    F = pre ++ tail /\
    forallb continues pre = true /\
    ((tail = [] /\ R = []) \/
     (exists t, tail = [t] /\ stops_alone t = true) \/
     (exists m x, tail = [m; x] /\ in_tuple m ["-c"; "-m"] = true) \/
     (exists m, tail = [m] /\ in_tuple m ["-c"; "-m"] = true /\ R = [])).
Proof. apply split_loop_shape. Qed.

Lemma split_args_shape_witness :
  exists pre tail,
    ["-i"; "-c"; "pass"] = pre ++ tail /\
    forallb continues pre = true /\
    ((tail = [] /\ ["a"] = []) \/
     (exists t, tail = [t] /\ stops_alone t = true) \/
     (exists m x, tail = [m; x] /\ in_tuple m ["-c"; "-m"] = true) \/
     (exists m, tail = [m] /\ in_tuple m ["-c"; "-m"] = true /\ ["a"] = [])).
Proof.
  exact (split_args_shape ["-i"; "-c"; "pass"; "a"] ["-i"; "-c"; "pass"]
           ["a"] eq_refl).
Defined.

(** The first token is never forwarded: the front-end part is empty only
    when the argument vector is. *)
Theorem split_args_front_nonempty (V R : list string) :
  split_args V = Ret ([], R) -> V = [] /\ R = [].
Proof.
  intros H. destruct (split_loop_shape _ _ _ H)
    as (pre & tail & Hnil & _ & Htail).
  symmetry in Hnil. apply app_eq_nil in Hnil as [-> ->].
  destruct Htail as [[_ ->] | [(t & [=] & _) | [(m & x & [=] & _) |
                     (m & [=] & _)]]].
  apply split_loop_concat in H. simpl in H. now subst V.
Qed.

Lemma split_args_front_nonempty_witness :
  @nil string = [] /\ @nil string = [].
Proof. exact (split_args_front_nonempty [] [] eq_refl). Defined.

(** The forwarded part is never looked at: when something is forwarded,
    any other tail in its place leaves the front-end part as it is and is
    forwarded whole. *)
Theorem split_args_forwarded_opaque (V F R R' : list string) :
  split_args V = Ret (F, R) ->
  R <> [] ->
  split_args (F ++ R') = Ret (F, R').
Proof.
  intros H HR.
  destruct (split_loop_shape _ _ _ H) as (pre & tail & -> & Hpre & Htail).
  unfold split_args. rewrite <- app_assoc.
  destruct Htail as [[_ ->] | [(t & -> & Hstop) | [(m & x & -> & Hm) |
                     (m & _ & _ & ->)]]]; try now elim HR.
  - rewrite (split_loop_after_flags _ _ Hpre). simpl app.
    now rewrite (split_loop_stops_alone _ _ _ Hstop).
  - simpl app. now apply split_loop_operand.
Qed.

Lemma split_args_forwarded_opaque_witness :
  split_args (["-i"; "script.py"] ++ ["-c"; "-"]) =
  Ret (["-i"; "script.py"], ["-c"; "-"]).
Proof.
  apply (split_args_forwarded_opaque ["-i"; "script.py"; "arg"]
           ["-i"; "script.py"] ["arg"] ["-c"; "-"]).
  - reflexivity.
  - discriminate.
Defined.

End SplitArgsShape.

(** * More on the dispatcher *)

Section DispatcherMore.
Context {B : Backend}.

Ltac py_run :=
  unfold python_body, python_try, python_except, call_exec,
    call_exec_compiled, call_run_module, call_run_path, call_stdin_read,
    call_interact, load_scope, raise_if, set_scope, set_interactive,
    set_banner, argv_now, emit, in_world, print_exc, emit_world,
    M.try_except_Exception, M.bind, M.ret, M.raise, M.gets, M.modify,
    M.lift.

Lemma set_sys_argv_nil command script script_args :
  set_sys_argv command script script_args (fresh []) =
  match truthy command, truthy script with
  | None, None => (Ret tt, fresh script_args)
  | _, _ => (Raise IndexError, fresh [])
  end.
Proof.
  unfold set_sys_argv, M.bind, sys_argv_setitem0, sys_argv_setslice1,
    M.modify, M.ret, fresh.
  destruct (truthy command); [reflexivity|].
  destruct (truthy script); reflexivity.
Qed.

(** [set_sys_argv] either puts a new [sys.argv] in place or raises
    [IndexError] on an empty one; it records nothing. *)
Lemma set_sys_argv_fresh command script script_args argv :
  (exists argv',
     set_sys_argv command script script_args (fresh argv) =
     (Ret tt, fresh argv')) \/
  set_sys_argv command script script_args (fresh argv) =
  (Raise IndexError, fresh []).
Proof.
  destruct argv as [|a0 rest].
  - rewrite set_sys_argv_nil.
    destruct (truthy command); [now right|].
    destruct (truthy script); [now right|]. left. eauto.
  - left. unfold fresh. rewrite set_sys_argv_cons. eauto.
Qed.

Lemma python_via_body module command script script_args i argv :
  python module command script script_args i (fresh argv) =
  match set_sys_argv command script script_args (fresh argv) with
  | (Ret _, w) =>
      let '(r, (w', _)) :=
        python_body module command script (w, initial_frame i) in
      (r, w')
  | (Raise e, w) => (Raise e, w)
  end.
Proof.
  unfold python, M.bind, initial_frame.
  destruct (set_sys_argv _ _ _ _) as [[[]|e] w]; reflexivity.
Qed.

(** A property of traces that holds of the empty trace and of every run
    of the body from an empty trace holds of every run of [python]. *)
Lemma python_trace_ind (P : list event -> Prop)
  module command script script_args i argv :
  P [] ->
  (forall argv',
     P (trace (fst (snd (python_body module command script
                           (fresh argv', initial_frame i)))))) ->
  P (trace (snd (python module command script script_args i (fresh argv)))).
Proof.
  intros Hnil Hbody. rewrite python_via_body.
  destruct (set_sys_argv_fresh command script script_args argv)
    as [[argv' ->] | ->]; [|exact Hnil].
  specialize (Hbody argv').
  destruct (python_body _ _ _ _) as [r [w' f']]. exact Hbody.
Qed.

Lemma body_session_only_if_asked module command script argv :
  branch module command script <> InteractiveOnly ->
  session_started
    (trace (fst (snd (python_body module command script
                        (fresh argv, initial_frame false))))) = false.
Proof.
  intros Hbranch. unfold branch in Hbranch.
  unfold fresh, initial_frame. py_run.
  destruct (truthy command) as [c|].
  { simpl. destruct (exec_source c (PyDict empty_dict) argv) as [g' [e|]];
      simpl; [destruct (is_Exception e)|]; reflexivity. }
  destruct (truthy module) as [m|].
  { simpl. destruct (run_module m argv) as [d|e]; simpl;
      [|destruct (is_Exception e)]; reflexivity. }
  destruct (eq_str script "-").
  { simpl. destruct stdin_read as [source|e]; simpl.
    - destruct (compile source "<stdin>" "exec") as [c|e]; simpl;
        [|destruct (is_Exception e)]; reflexivity.
    - destruct (is_Exception e); reflexivity. }
  destruct (truthy script) as [p|]; [|now elim Hbranch].
  simpl. destruct (run_path p argv) as [d|e]; simpl;
    [|destruct (is_Exception e)]; reflexivity.
Qed.

Lemma body_prints_only_if_interactive module command script argv i e :
  In (EPrintExc e)
     (trace (fst (snd (python_body module command script
                         (fresh argv, initial_frame i))))) ->
  i = true /\ is_Exception e = true.
Proof.
  unfold fresh, initial_frame. py_run.
  destruct (truthy command) as [c|].
  { simpl. destruct (exec_source c (PyDict empty_dict) argv) as [g' [e'|]];
      simpl.
    - destruct (is_Exception e') eqn:He', i; simpl;
        try destruct (interact (Some "") g'); simpl;
        intuition (try discriminate); congruence.
    - destruct i; simpl; try destruct (interact (Some "") g'); simpl;
        intuition discriminate. }
  destruct (truthy module) as [m|].
  { simpl. destruct (run_module m argv) as [d|e']; simpl.
    - destruct i; simpl; try destruct (interact (Some "") (PyDict d));
        simpl; intuition discriminate.
    - destruct (is_Exception e') eqn:He', i; simpl;
        intuition (try discriminate); congruence. }
  destruct (eq_str script "-").
  { simpl. destruct stdin_read as [source|e']; simpl.
    - destruct (compile source "<stdin>" "exec") as [c|e']; simpl.
      + destruct i; simpl; intuition (try discriminate).
        match goal with
        | H : EPrintExc _ = EPrintExc _ |- _ => injection H as <-
        end.
        reflexivity.
      + destruct (is_Exception e') eqn:He', i; simpl;
          intuition (try discriminate); congruence.
    - destruct (is_Exception e') eqn:He', i; simpl;
        intuition (try discriminate); congruence. }
  destruct (truthy script) as [p|].
  - simpl. destruct (run_path p argv) as [d|e']; simpl.
    + destruct i; simpl; try destruct (interact (Some "") (PyDict d));
        simpl; intuition discriminate.
    + destruct (is_Exception e') eqn:He', i; simpl;
        intuition (try discriminate); congruence.
  - simpl. destruct (interact None PyNone); simpl; intuition discriminate.
Qed.

Lemma truthy_idem (x : option string) : truthy (truthy x) = truthy x.
Proof.
  destruct x as [s|]; simpl; [|reflexivity].
  destruct (s =? "") eqn:E; simpl; [reflexivity|now rewrite E].
Qed.

Lemma eq_str_truthy (x : option string) :
  eq_str (truthy x) "-" = eq_str x "-".
Proof.
  destruct x as [s|]; simpl; [|reflexivity].
  destruct (s =? "") eqn:E; simpl; [|reflexivity].
  apply String.eqb_eq in E. now subst s.
Qed.

Lemma main_cases args w :
  main args w =
  let args' := match args with
               | None => skipn 1 (sys_argv w)
               | Some args => args
               end in
  match (nsa <- parse_args args' ;;
         python (ns_module (fst nsa)) (ns_command (fst nsa))
                (ns_script (fst nsa)) (snd nsa)
                (ns_interactive (fst nsa))) w with
  | (Ret _, w') => (Ret ExitNone, w')
  | (Raise (SystemExit code), w') => (Ret code, w')
  | (Raise e, w') =>
      if is_Exception e
      then (Ret (ExitInt 1), emit_world (EPrintExc e) w')
      else (Raise e, w')
  end.
Proof.
  unfold main. unfold M.bind at 1.
  destruct args as [args|].
  - unfold M.ret at 1. cbv zeta.
    destruct (M.bind _ _ w) as [[u|e] w']; [reflexivity|].
    destruct e; reflexivity.
  - unfold M.bind at 1, M.gets at 1, M.ret at 1. cbv zeta.
    destruct (M.bind _ _ w) as [[u|e] w']; [reflexivity|].
    destruct e; reflexivity.
Qed.

Lemma parse_args_cons args a0 rest t :
  parse_args args {| sys_argv := a0 :: rest; trace := t |} =
  (match split_args args with
   | Ret (py_args, script_args) =>
       match parser_parse_args
               (if a0 =? "" then Some "python" else None) py_args with
       | Ret ns => Ret (ns, script_args)
       | Raise e => Raise e
       end
   | Raise e => Raise e
   end,
   {| sys_argv := a0 :: rest; trace := t |}).
Proof.
  unfold parse_args, make_parser, M.bind, M.gets, M.lift, M.ret. simpl.
  destruct (split_args args) as [[py_args script_args]|e]; [|reflexivity].
  destruct (parser_parse_args _ py_args); reflexivity.
Qed.

Lemma python_success module command script script_args i a0 rest g :
  backend_returns module command script
    (program_argv command script script_args (a0 :: rest)) g ->
  exists ev,
    is_interact ev = false /\
    python module command script script_args i (fresh (a0 :: rest)) =
    (if i
     then match interact (Some "") g with
          | Some e => Raise e
          | None => Ret tt
          end
     else Ret tt,
     {| sys_argv := program_argv command script script_args (a0 :: rest);
        trace := ev :: if i then [EInteract (Some "") g] else [] |}).
Proof.
  intros Hrun. rewrite python_cons.
  set (argv := program_argv _ _ _ _) in *. clearbody argv.
  unfold backend_returns, branch in Hrun. py_run.
  destruct (truthy command) as [c|].
  { destruct Hrun as (c' & [= <-] & Hrun). simpl. rewrite Hrun. simpl.
    eexists. split; [|destruct i; simpl;
      [destruct (interact (Some "") g)|]; reflexivity].
    reflexivity. }
  destruct (truthy module) as [m|].
  { destruct Hrun as (m' & d & [= <-] & Hrun & ->). simpl. rewrite Hrun.
    simpl. eexists. split; [|destruct i; simpl;
      [destruct (interact (Some "") (PyDict d))|]; reflexivity].
    reflexivity. }
  destruct (eq_str script "-"); [contradiction|].
  destruct (truthy script) as [p|]; [|contradiction].
  destruct Hrun as (p' & d & [= <-] & Hrun & ->). simpl. rewrite Hrun.
  simpl. eexists. split; [|destruct i; simpl;
    [destruct (interact (Some "") (PyDict d))|]; reflexivity].
  reflexivity.
Qed.

Lemma python_stdin_raises module command script script_args i a0 rest :
  branch module command script = StdinScript ->
  exists e evs,
    python module command script script_args i (fresh (a0 :: rest)) =
    (Raise e, {| sys_argv := "-" :: script_args; trace := evs |}) /\
    exec_called evs = false /\ session_started evs = false.
Proof.
  intros Hbranch. rewrite python_cons, program_argv_cons.
  unfold branch in Hbranch. py_run.
  destruct (truthy command) as [c'|]; [discriminate|].
  destruct (truthy module) as [m|]; [discriminate|].
  destruct (eq_str script "-") eqn:Edash.
  2:{ destruct (truthy script); discriminate. }
  destruct script as [p|]; [|discriminate]. simpl in Edash.
  apply String.eqb_eq in Edash. subst p. simpl.
  destruct stdin_read as [source|e]; simpl.
  - destruct (compile source "<stdin>" "exec") as [c|e]; simpl.
    + destruct i; simpl; eauto 6.
    + destruct (is_Exception e), i; simpl; eauto 6.
  - destruct (is_Exception e), i; simpl; eauto 6.
Qed.

(** Without [-i] and with something to run, no interactive session is
    ever started, whatever the executed program does. *)
Theorem no_session_unless_asked module command script script_args argv :
  branch module command script <> InteractiveOnly ->
  session_started
    (trace (snd (python module command script script_args false
                   (fresh argv)))) = false.
Proof.
  intros Hbranch.
  apply (python_trace_ind (fun evs => session_started evs = false)).
  - reflexivity.
  - intros argv'. now apply body_session_only_if_asked.
Qed.

(** [python] itself prints a traceback only when asked to go
    interactive, and only for exceptions deriving from [Exception]. *)
Theorem traceback_only_if_interactive
  module command script script_args i argv e :
  In (EPrintExc e)
     (trace (snd (python module command script script_args i
                    (fresh argv)))) ->
  i = true /\ is_Exception e = true.
Proof.
  apply (python_trace_ind
           (fun evs => In (EPrintExc e) evs ->
                       i = true /\ is_Exception e = true)).
  - contradiction.
  - intros argv'. apply body_prints_only_if_interactive.
Qed.

(** When the command, the module or the script file runs to its end,
    [python] returns without a session if [interactive] is false;
    otherwise it starts one session, with the empty banner and the scope
    the run has produced, and ends as the session ends. *)
Theorem run_then_inspect module command script script_args i a0 rest g :
  backend_returns module command script
    (program_argv command script script_args (a0 :: rest)) g ->
  exists ev,
    is_interact ev = false /\
    python module command script script_args i (fresh (a0 :: rest)) =
    (if i
     then match interact (Some "") g with
          | Some e => Raise e
          | None => Ret tt
          end
     else Ret tt,
     {| sys_argv := program_argv command script script_args (a0 :: rest);
        trace := ev :: if i then [EInteract (Some "") g] else [] |}).
Proof. apply python_success. Qed.

(** The part of the fallback that works: when the command fails with an
    ordinary exception and [interactive] is true, the traceback is printed
    and the session starts with the empty banner on the dict as [exec]
    left it. *)
Theorem command_fallback_keeps_scope
  module command script script_args a0 rest c g e :
  truthy command = Some c ->
  exec_source c (PyDict empty_dict) ("-c" :: script_args) = (g, Some e) ->
  is_Exception e = true ->
  python module command script script_args true (fresh (a0 :: rest)) =
  (match interact (Some "") g with Some e' => Raise e' | None => Ret tt end,
   {| sys_argv := "-c" :: script_args;
      trace := [EExec c ("-c" :: script_args); EPrintExc e;
                EInteract (Some "") g] |}).
Proof. apply python_command_fallback. Qed.

(** With [script == "-"], [python] never returns normally: whatever
    standard input holds, it raises, without calling [exec] and without
    starting a session. *)
Theorem stdin_branch_always_raises
  module command script script_args i a0 rest :
  branch module command script = StdinScript ->
  exists e evs,
    python module command script script_args i (fresh (a0 :: rest)) =
    (Raise e, {| sys_argv := "-" :: script_args; trace := evs |}) /\
    exec_called evs = false /\ session_started evs = false.
Proof. apply python_stdin_raises. Qed.

(** On an empty [sys.argv] a command or a script cannot be dispatched:
    the assignment to [sys.argv[0]] raises [IndexError] before anything is
    run. *)
Theorem python_empty_argv module command script script_args i :
  truthy command <> None \/ truthy script <> None ->
  python module command script script_args i (fresh []) =
  (Raise IndexError, fresh []).
Proof.
  intros Hset. rewrite python_via_body, set_sys_argv_nil.
  destruct (truthy command); [reflexivity|].
  destruct (truthy script); [reflexivity|].
  destruct Hset as [H|H]; now elim H.
Qed.

(** An empty string counts as not given: [python] behaves as if every
    empty [module], [command] or [script] were [None]. *)
Theorem empty_string_is_unset module command script script_args i w :
  python module command script script_args i w =
  python (truthy module) (truthy command) (truthy script) script_args i w.
Proof.
  unfold python, set_sys_argv, python_body, python_try.
  now rewrite !truthy_idem, eq_str_truthy.
Qed.

(** A command wins over everything else: with a command given, [module]
    and [script] play no part. *)
Theorem command_takes_priority module command script script_args i w c :
  truthy command = Some c ->
  python module command script script_args i w =
  python None command None script_args i w.
Proof.
  intros Hc. unfold python, set_sys_argv, python_body, python_try.
  now rewrite Hc.
Qed.


(** [parse_args] gives the parser the front-end part alone and returns
    the forwarded part, in order, as [script_args]. *)
Theorem parse_args_splits args w ns script_args :
  fst (parse_args args w) = Ret (ns, script_args) ->
  exists py_args a0 rest,
    sys_argv w = a0 :: rest /\
    split_args args = Ret (py_args, script_args) /\
    py_args ++ script_args = args /\
    parser_parse_args (if a0 =? "" then Some "python" else None) py_args =
    Ret ns.
Proof.
  destruct w as [[|a0 rest] t].
  { intros H. now elim (parse_args_argv _ _ _ _ H). }
  rewrite parse_args_cons. simpl.
  destruct (split_args args) as [[py_args sa]|e] eqn:Hsplit; [|discriminate].
  destruct (parser_parse_args _ py_args) as [ns'|e] eqn:Hparse;
    [|discriminate].
  intros [= <- <-]. exists py_args, a0, rest.
  repeat split; try assumption.
  now apply split_loop_concat.
Qed.

(** A command line the parser rejects, or answers by itself as for
    [--version], ends [main] with the parser's exit code: nothing is run
    and [sys.argv] is not touched. *)
Theorem main_parser_exit args a0 rest t py_args script_args code :
  split_args args = Ret (py_args, script_args) ->
  parser_parse_args (if a0 =? "" then Some "python" else None) py_args =
  Raise (SystemExit code) ->
  main (Some args) {| sys_argv := a0 :: rest; trace := t |} =
  (Ret code, {| sys_argv := a0 :: rest; trace := t |}).
Proof.
  intros Hsplit Hparse. rewrite main_cases. cbv zeta.
  unfold M.bind. rewrite parse_args_cons, Hsplit, Hparse. reflexivity.
Qed.

(** With an empty [sys.argv], [main] gets no further than building the
    parser: it prints the [IndexError] and returns 1, whatever its
    arguments. *)
Theorem main_empty_argv args :
  main args (fresh []) =
  (Ret (ExitInt 1), {| sys_argv := []; trace := [EPrintExc IndexError] |}).
Proof. destruct args; reflexivity. Qed.

(** [main] catches every exception deriving from [Exception] and every
    [SystemExit]: what leaves it is neither, as a [KeyboardInterrupt]. *)
Theorem main_only_interrupt_escapes args w e w' :
  main args w = (Raise e, w') ->
  is_Exception e = false /\ forall code, e <> SystemExit code.
Proof.
  rewrite main_cases. cbv zeta.
  destruct (M.bind _ _ w) as [[u|e0] w0]; [discriminate|].
  destruct e0; simpl; try discriminate.
  intros [= <- _]. split; [reflexivity | discriminate].
Qed.

(** Started with nothing to run, [main] returns [None] when the session
    ends by itself and the exit code when the session is left through
    [SystemExit]. *)
Theorem main_bare_session args ns script_args argv :
  fst (parse_args args (fresh argv)) = Ret (ns, script_args) ->
  branch (ns_module ns) (ns_command ns) (ns_script ns) = InteractiveOnly ->
  (interact None PyNone = None ->
   main (Some args) (fresh argv) =
   (Ret ExitNone,
    {| sys_argv := firstn 1 argv ++ script_args;
       trace := [EInteract None PyNone] |})) /\
  (forall code,
     interact None PyNone = Some (SystemExit code) ->
     main (Some args) (fresh argv) =
     (Ret code,
      {| sys_argv := firstn 1 argv ++ script_args;
         trace := [EInteract None PyNone] |})).
Proof.
  intros Hparse Hbranch.
  rewrite (main_parsed _ _ _ _ Hparse).
  rewrite (python_interactive_only _ _ _ _ _ _ Hbranch).
  split; [intros -> | intros code ->]; reflexivity.
Qed.

End DispatcherMore.

(** ** The further theorems at work on the small backends *)

Section MoreDemoRuns.

#[local] Existing Instance Demo.backend.

Lemma no_session_unless_asked_witness :
  session_started
    (trace (snd (python None (Some "x = 1") None ["a"] false
                   (fresh ["prog"])))) = false.
Proof.
  apply (no_session_unless_asked None (Some "x = 1") None ["a"] ["prog"]).
  vm_compute. discriminate.
Defined.

Lemma traceback_only_if_interactive_witness :
  true = true /\ is_Exception (PyException "ZeroDivisionError") = true.
Proof.
  apply (traceback_only_if_interactive None (Some "1/0") None [] true
           ["prog"] (PyException "ZeroDivisionError")).
  vm_compute. right. left. reflexivity.
Defined.

Lemma run_then_inspect_witness :
  exists ev,
    is_interact ev = false /\
    python None None (Some "s.py") ["a"] true (fresh ["prog"]) =
    (Ret tt,
     {| sys_argv := ["s.py"; "a"];
        trace := [ev; EInteract (Some "") (PyDict ["__name__"])] |}).
Proof.
  apply (run_then_inspect (B := Demo.backend)
           None None (Some "s.py") ["a"] true "prog" []
           (PyDict ["__name__"])).
  exists "s.py", ["__name__"]. repeat split; reflexivity.
Defined.

Lemma command_fallback_keeps_scope_witness :
  python None (Some "x = 1; 1/0") None ["a"] true (fresh ["prog"]) =
  (Ret tt,
   {| sys_argv := ["-c"; "a"];
      trace := [EExec "x = 1; 1/0" ["-c"; "a"];
                EPrintExc (PyException "ZeroDivisionError");
                EInteract (Some "") (PyDict ["x"])] |}).
Proof.
  exact (command_fallback_keeps_scope (B := Demo.backend)
           None (Some "x = 1; 1/0") None ["a"]
           "prog" [] "x = 1; 1/0" (PyDict ["x"])
           (PyException "ZeroDivisionError") eq_refl eq_refl eq_refl).
Defined.

Lemma stdin_branch_always_raises_witness :
  exists e evs,
    python None None (Some "-") ["a"] true (fresh ["prog"]) =
    (Raise e, {| sys_argv := ["-"; "a"]; trace := evs |}) /\
    exec_called evs = false /\ session_started evs = false.
Proof.
  exact (stdin_branch_always_raises None None (Some "-") ["a"] true
           "prog" [] eq_refl).
Defined.

Lemma python_empty_argv_witness :
  python None None (Some "s.py") ["a"] false (fresh []) =
  (Raise IndexError, fresh []).
Proof.
  apply (python_empty_argv None None (Some "s.py") ["a"] false).
  right. vm_compute. discriminate.
Defined.

Lemma command_takes_priority_witness :
  python (Some "json.tool") (Some "x = 1") (Some "s.py") ["a"] true
    (fresh ["prog"]) =
  python None (Some "x = 1") None ["a"] true (fresh ["prog"]).
Proof.
  exact (command_takes_priority (Some "json.tool") (Some "x = 1")
           (Some "s.py") ["a"] true (fresh ["prog"]) "x = 1" eq_refl).
Defined.


Lemma parse_args_splits_witness :
  exists py_args a0 rest,
    ["prog"] = a0 :: rest /\
    split_args ["-i"; "s.py"; "a"; "-i"] = Ret (py_args, ["a"; "-i"]) /\
    py_args ++ ["a"; "-i"] = ["-i"; "s.py"; "a"; "-i"] /\
    parser_parse_args (if a0 =? "" then Some "python" else None) py_args =
    Ret {| ns_interactive := true; ns_command := None; ns_module := None;
           ns_script := Some "s.py" |}.
Proof.
  exact (parse_args_splits ["-i"; "s.py"; "a"; "-i"] (fresh ["prog"])
           {| ns_interactive := true; ns_command := None; ns_module := None;
              ns_script := Some "s.py" |}
           ["a"; "-i"] eq_refl).
Defined.

Lemma main_parser_exit_witness :
  main (Some ["-i"; "-x"; "s.py"])
    {| sys_argv := ["prog"]; trace := [] |} =
  (Ret (ExitInt 2), {| sys_argv := ["prog"]; trace := [] |}).
Proof.
  exact (main_parser_exit ["-i"; "-x"; "s.py"] "prog" [] []
           ["-i"; "-x"; "s.py"] [] (ExitInt 2) eq_refl eq_refl).
Defined.

Lemma main_bare_session_witness :
  main (Some ["-i"]) (fresh ["prog"]) =
  (Ret ExitNone,
   {| sys_argv := ["prog"]; trace := [EInteract None PyNone] |}) /\
  main (B := Leaving.backend) (Some ["-i"]) (fresh ["prog"]) =
  (Ret (ExitInt 7),
   {| sys_argv := ["prog"]; trace := [EInteract None PyNone] |}).
Proof.
  split.
  - exact (proj1 (main_bare_session ["-i"]
              {| ns_interactive := true; ns_command := None;
                 ns_module := None; ns_script := None |}
              [] ["prog"] eq_refl eq_refl) eq_refl).
  - exact (proj2 (main_bare_session (B := Leaving.backend) ["-i"]
              {| ns_interactive := true; ns_command := None;
                 ns_module := None; ns_script := None |}
              [] ["prog"] eq_refl eq_refl) (ExitInt 7) eq_refl).
Defined.

Lemma main_only_interrupt_escapes_witness :
  is_Exception KeyboardInterrupt = false /\
  forall code, KeyboardInterrupt <> SystemExit code.
Proof.
  exact (main_only_interrupt_escapes (B := Leaving.backend)
           (Some ["-m"; "spin"]) (fresh ["prog"]) KeyboardInterrupt
           {| sys_argv := ["prog"];
              trace := [ERunModule "spin" ["prog"]] |}
           eq_refl).
Defined.

End MoreDemoRuns.
